(** * HAL: MCU Cryptography: True Random Number Generation -- main.c

    A shallow embedding of [main.c] (the one-time-password demo) and of the
    normalisation of its earlier revision, with the properties of the
    password generator stated over it.

    C integers are modelled as [Z] with the wrap-around of their type written
    out, the password array as a [list Z] updated by index, the HAL (UART,
    TRNG) as an environment of oracles, and the calls the program makes as a
    log of events carried in an explicit state. *)

From Stdlib Require Import ZArith Lia Bool List String Ascii.
From stdpp Require Import base list.
Import ListNotations.

#[local] Open Scope Z_scope.

(* ===================================================================== *)
(** ** Machine integers *)
(* ===================================================================== *)

(** Conversion to [uint8_t]. *)
Definition to_uint8 (z : Z) : Z := z mod 256.

(** Conversion to [uint32_t] / [unsigned int]. *)
Definition to_uint32 (z : Z) : Z := z mod 4294967296.

(** Conversion to [int8_t] (two's complement). *)
Definition to_int8 (z : Z) : Z :=
  let m := z mod 256 in if m <? 128 then m else m - 256.

(* ===================================================================== *)
(** ** Macros *)
(* ===================================================================== *)

Definition ASCII_7BIT_MASK : Z := 0x7F.
Definition PASSWORD_LENGTH : Z := 8.
Definition ASCII_VISIBLE_CHARACTER_START : Z := 33.
Definition ASCII_RETURN_CARRIAGE : Z := 0x0D.

(* ===================================================================== *)
(** ** [check_range] *)
(* ===================================================================== *)

(** [uint8_t check_range(uint8_t value)], for [value] in the range of its
    type: the comparison and the addition are done in [unsigned int] (the
    constant is [33u]); the compound assignment converts the sum back to
    [uint8_t]. *)
Definition check_range (value : Z) : Z :=
  if to_uint32 value <? ASCII_VISIBLE_CHARACTER_START
  then to_uint8 (to_uint32 (to_uint32 value + ASCII_VISIBLE_CHARACTER_START))
  else value.

(* ===================================================================== *)
(** ** The earlier revision's normalisation *)
(* ===================================================================== *)

Module Earlier.

Definition MAX_TRNG_VAL : Z := 0x7F.
Definition ASCII_ALPHANUMERIC_LOWER_LIMIT : Z := 33.
Definition ASCII_ALPHANUMERIC_UPPER_LIMIT : Z := 127.

(** The [if] / [else if] on the [uint32_t random_val] in the body of the
    loop of the earlier [generate_password]. *)
Definition normalize (random_val : Z) : Z :=
  if random_val <? ASCII_ALPHANUMERIC_LOWER_LIMIT
  then to_uint32 (random_val + ASCII_ALPHANUMERIC_LOWER_LIMIT)
  else if ASCII_ALPHANUMERIC_UPPER_LIMIT <=? random_val
       then to_uint32 (random_val - ASCII_ALPHANUMERIC_LOWER_LIMIT)
       else random_val.

(** [random_val = cyhal_trng_generate(&trng_obj) & MAX_TRNG_VAL; ...;
    password[index] = random_val;]: the character stored for the drawn
    word [w]. *)
Definition password_char (w : Z) : Z :=
  to_uint8 (normalize (Z.land (to_uint32 w) MAX_TRNG_VAL)).

End Earlier.

(* ===================================================================== *)
(** ** The HAL as an environment, events, program state *)
(* ===================================================================== *)

(** What the hardware answers: the [n]-th call of [cyhal_uart_getc] returns
    [CY_RSLT_SUCCESS] with a byte ([Some b]) or fails ([None], nothing
    received within the timeout); the [n]-th call of [cyhal_trng_init]
    succeeds or not; the [n]-th call of [cyhal_trng_generate] returns a
    word. *)
Record hal : Type := Hal {
  hal_uart_getc : nat -> option Z;
  hal_trng_init : nat -> bool;
  hal_trng_generate : nat -> Z
}.

(** The calls the program makes, and the stores into [password]. *)
Inductive event : Type :=
| EvUartGetc (r : option Z)
| EvTrngInit (ok : bool)
| EvTrngGenerate (w : Z)
| EvTrngFree
| EvStore (i v : Z)
| EvPrintf (s : list Z).

Record state : Type := State {
  uart_calls : nat;        (* calls of cyhal_uart_getc so far *)
  init_calls : nat;        (* calls of cyhal_trng_init so far *)
  gen_calls : nat;         (* calls of cyhal_trng_generate so far *)
  trng_held : bool;        (* a TRNG object is initialised and not freed *)
  uart_read_value : Z;     (* the global uint8_t uart_read_value *)
  log : list event         (* events so far, oldest first *)
}.

Definition init_state : state := State 0 0 0 false 0 [].

(** Outcome of running a piece of the program: a value, undefined behaviour
    (a store or read outside [password], a shift by the width of the type or
    more, a HAL call on an uninitialised object), or loop fuel exhausted. *)
Inductive result (A : Type) : Type :=
| Done (a : A)
| Fault
| OutOfFuel.
Arguments Done {A} a.
Arguments Fault {A}.
Arguments OutOfFuel {A}.

Definition M (A : Type) : Type := state -> result (A * state).

Definition ret {A} (a : A) : M A := fun s => Done (a, s).

Definition bind {A B} (m : M A) (k : A -> M B) : M B :=
  fun s => match m s with
           | Done (a, s') => k a s'
           | Fault => Fault
           | OutOfFuel => OutOfFuel
           end.

Definition fault {A} : M A := fun _ => Fault.
Definition out_of_fuel {A} : M A := fun _ => OutOfFuel.

Notation "'let*' x ':=' m 'in' k" := (bind m (fun x => k))
  (at level 10, x pattern, m at level 100, k at level 200).
Notation "m ';;' k" := (bind m (fun _ => k))
  (at level 100, k at level 200, right associativity).

(** The state with the events [l] appended to its log. *)
Definition append_log (s : state) (l : list event) : state :=
  State (uart_calls s) (init_calls s) (gen_calls s) (trng_held s)
        (uart_read_value s) (log s ++ l).

Definition emit (e : event) : M unit := fun s => Done (tt, append_log s [e]).

(** The text written to the terminal, in order. *)
Fixpoint output (l : list event) : list (list Z) :=
  match l with
  | [] => []
  | EvPrintf s :: l' => s :: output l'
  | _ :: l' => output l'
  end.

(** Number of [cyhal_trng_init] calls, successful ones, and
    [cyhal_trng_free] calls in a log. *)
Definition is_init (e : event) : bool :=
  match e with EvTrngInit _ => true | _ => false end.
Definition is_acquire (e : event) : bool :=
  match e with EvTrngInit true => true | _ => false end.
Definition is_free (e : event) : bool :=
  match e with EvTrngFree => true | _ => false end.

Definition count (p : event -> bool) (l : list event) : nat :=
  length (List.filter p l).

(** The stores into [password] recorded in a log, as (index, value). *)
Fixpoint stores (l : list event) : list (Z * Z) :=
  match l with
  | [] => []
  | EvStore i v :: l' => (i, v) :: stores l'
  | _ :: l' => stores l'
  end.

(* ===================================================================== *)
(** ** HAL calls *)
(* ===================================================================== *)

Section Firmware.

Variable hw : hal.

(** [cyhal_uart_getc(&cy_retarget_io_uart_obj, &uart_read_value, 1)
    == CY_RSLT_SUCCESS]. *)
Definition cyhal_uart_getc : M bool := fun s =>
  let r := hal_uart_getc hw (uart_calls s) in
  let v := match r with Some b => to_uint8 b | None => uart_read_value s end in
  Done (match r with Some _ => true | None => false end,
        State (S (uart_calls s)) (init_calls s) (gen_calls s) (trng_held s)
              v (log s ++ [EvUartGetc r])).

(** [cyhal_trng_init(&trng_obj) == CY_RSLT_SUCCESS]. *)
Definition cyhal_trng_init : M bool := fun s =>
  let ok := hal_trng_init hw (init_calls s) in
  Done (ok,
        State (uart_calls s) (S (init_calls s)) (gen_calls s)
              (if ok then true else trng_held s)
              (uart_read_value s) (log s ++ [EvTrngInit ok])).

(** [cyhal_trng_generate(&trng_obj)], a [uint32_t]. *)
Definition cyhal_trng_generate : M Z := fun s =>
  if trng_held s then
    let w := to_uint32 (hal_trng_generate hw (gen_calls s)) in
    Done (w,
          State (uart_calls s) (init_calls s) (S (gen_calls s)) (trng_held s)
                (uart_read_value s) (log s ++ [EvTrngGenerate w]))
  else Fault.

(** [cyhal_trng_free(&trng_obj)]. *)
Definition cyhal_trng_free : M unit := fun s =>
  if trng_held s then
    Done (tt,
          State (uart_calls s) (init_calls s) (gen_calls s) false
                (uart_read_value s) (log s ++ [EvTrngFree]))
  else Fault.

Definition printf (text : list Z) : M unit := emit (EvPrintf text).

Definition read_uart_read_value : M Z := fun s => Done (uart_read_value s, s).

(* ===================================================================== *)
(** ** [generate_password] *)
(* ===================================================================== *)

(** [uint8_t password[PASSWORD_LENGTH + 1] = {0};] *)
Definition password_size : Z := PASSWORD_LENGTH + 1.
Definition password_init : list Z := repeat 0 (Z.to_nat password_size).

(** [password[index] = value;] -- a store outside the array is undefined
    behaviour. *)
Definition store (password : list Z) (index value : Z) : M (list Z) :=
  if (0 <=? index) && (index <? password_size)
  then emit (EvStore index value) ;;
       ret (<[Z.to_nat index := value]> password)
  else fault.

(** [temp_value = ((random_val >> bit_position) & ASCII_7BIT_MASK);] with
    [uint32_t random_val], [uint8_t bit_position] and [uint8_t temp_value]. *)
Definition candidate_byte (random_val bit_position : Z) : Z :=
  to_uint8 (Z.land (Z.shiftr random_val bit_position) ASCII_7BIT_MASK).

(** [for (int8_t j = 0; j < 4; j++) { ... }] from the state of its variables
    at the loop test; returns [index] and [password] at the exit. *)
Fixpoint inner_for (fuel : nat) (random_val j bit_position index : Z)
                   (password : list Z) : M (Z * list Z) :=
  match fuel with
  | O => out_of_fuel
  | S fuel' =>
      if j <? 4 then
        if 32 <=? bit_position then fault else
        let temp_value := candidate_byte random_val bit_position in
        let temp_value := check_range temp_value in
        let* password := store password index temp_value in
        let index := to_int8 (index + 1) in
        let bit_position := to_uint8 (bit_position + 8) in
        inner_for fuel' random_val (to_int8 (j + 1)) bit_position index password
      else ret (index, password)
  end.

(** [for (index = 0; index < PASSWORD_LENGTH;) { ... }] from the state of
    its variables at the loop test; [index] is an [int8_t] compared with the
    [unsigned] constant [8u].  [fuel_j] is the fuel of each run of the inner
    loop. *)
Fixpoint outer_for (fuel_j fuel : nat) (index : Z) (password : list Z)
  : M (Z * list Z) :=
  match fuel with
  | O => out_of_fuel
  | S fuel' =>
      if to_uint32 index <? PASSWORD_LENGTH then
        let* random_val := cyhal_trng_generate in
        let* (index, password) :=
          inner_for fuel_j random_val 0 0 index password in
        outer_for fuel_j fuel' index password
      else ret (index, password)
  end.

(** The bytes [printf] prints for [%s]: those before the first zero of the
    array; [None] when the array holds no zero (the read leaves it). *)
Fixpoint c_string (a : list Z) : option (list Z) :=
  match a with
  | [] => None
  | c :: a' => if c =? 0 then Some []
               else match c_string a' with
                    | Some t => Some (c :: t)
                    | None => None
                    end
  end.

Definition bytes (s : string) : list Z :=
  List.map (fun c => Z.of_nat (nat_of_ascii c)) (list_ascii_of_string s).

Definition CR : list Z := [13].
Definition LF : list Z := [10].

Definition SCREEN_HEADER1 : list Z :=
  CR ++ LF
  ++ bytes "================================================="
  ++ bytes "============================="
  ++ CR ++ LF.

Definition generate_password (fuel : nat) : M unit :=
  let* ok := cyhal_trng_init in
  if ok : bool then
    let* (index, password) := outer_for fuel fuel 0 password_init in
    let* password := store password index 0 in
    match c_string password with
    | None => fault
    | Some text =>
        printf (bytes "One-Time Password: " ++ text ++ CR ++ LF ++ LF) ;;
        printf (bytes "Press the Enter key to generate new password"
                ++ CR ++ LF) ;;
        printf SCREEN_HEADER1 ;;
        cyhal_trng_free
    end
  else ret tt.

(* ===================================================================== *)
(** ** The input-monitor loop of [main] *)
(* ===================================================================== *)

(** One iteration of the body of [for(;;)]. *)
Definition loop_body (fuel : nat) : M unit :=
  let* received := cyhal_uart_getc in
  if received : bool then
    let* value := read_uart_read_value in
    if value =? ASCII_RETURN_CARRIAGE
    then generate_password fuel
    else ret tt
  else ret tt.

(** The first [n] iterations of [for(;;)]; the loop has no exit. *)
Fixpoint main_loop (n : nat) (fuel : nat) : M unit :=
  match n with
  | O => ret tt
  | S n' => loop_body fuel ;; main_loop n' fuel
  end.

End Firmware.

(* ===================================================================== *)
(** ** [generate_password] of the earlier revision *)
(* ===================================================================== *)

Module EarlierProgram.

(** [uint8_t password[PASSWORD_LENGTH + 1];] has no initialiser: its
    elements are indeterminate ([None]) until stored to. *)
Definition password_uninit : list (option Z) :=
  repeat None (Z.to_nat password_size).

(** [password[index] = value;] *)
Definition store (password : list (option Z)) (index value : Z)
  : M (list (option Z)) :=
  if (0 <=? index) && (index <? password_size)
  then emit (EvStore index value) ;;
       ret (<[Z.to_nat index := Some value]> password)
  else fault.

(** The bytes [printf] prints for [%s]; [None] when the read meets an
    indeterminate element or leaves the array. *)
Fixpoint c_string (a : list (option Z)) : option (list Z) :=
  match a with
  | [] => None
  | None :: _ => None
  | Some c :: a' => if c =? 0 then Some []
                    else match c_string a' with
                         | Some t => Some (c :: t)
                         | None => None
                         end
  end.

(** [for (index = 0; index < PASSWORD_LENGTH; index++) { ... }] from the
    state of its variables at the loop test: one word is drawn for each
    character. *)
Fixpoint for_index (hw : hal) (fuel : nat) (index : Z)
                   (password : list (option Z)) : M (Z * list (option Z)) :=
  match fuel with
  | O => out_of_fuel
  | S fuel' =>
      if to_uint32 index <? PASSWORD_LENGTH then
        let* w := cyhal_trng_generate hw in
        let random_val := Z.land w Earlier.MAX_TRNG_VAL in
        let random_val := Earlier.normalize random_val in
        let* password := store password index (to_uint8 random_val) in
        for_index hw fuel' (to_int8 (index + 1)) password
      else ret (index, password)
  end.

Definition generate_password (hw : hal) (fuel : nat) : M unit :=
  let* ok := cyhal_trng_init hw in
  if ok : bool then
    let* (index, password) := for_index hw fuel 0 password_uninit in
    let* password := store password index 0 in
    match c_string password with
    | None => fault
    | Some text =>
        printf (bytes "One-Time Password: " ++ text ++ CR ++ LF ++ LF) ;;
        printf (bytes "Press the Enter key to generate new password"
                ++ CR ++ LF) ;;
        printf SCREEN_HEADER1 ;;
        cyhal_trng_free
    end
  else ret tt.

(** Loop fuel that suffices for every run of [generate_password]. *)
Definition enough_fuel : nat := 9.

(** The characters derived from the [n] words drawn from the [g]-th on. *)
Fixpoint chars_from (hw : hal) (g n : nat) : list Z :=
  match n with
  | O => []
  | S n' =>
      to_uint8 (Earlier.normalize
                  (Z.land (to_uint32 (hal_trng_generate hw g))
                          Earlier.MAX_TRNG_VAL))
      :: chars_from hw (S g) n'
  end.

(** The events of [n] turns of the loop from [index] on, the first drawing
    the [g]-th word. *)
Fixpoint turn_events (hw : hal) (g : nat) (index : Z) (n : nat)
  : list event :=
  match n with
  | O => []
  | S n' =>
      EvTrngGenerate (to_uint32 (hal_trng_generate hw g))
      :: EvStore index
           (to_uint8 (Earlier.normalize
                        (Z.land (to_uint32 (hal_trng_generate hw g))
                                Earlier.MAX_TRNG_VAL)))
      :: turn_events hw (S g) (index + 1) n'
  end.

(** The 7-bit values of the [n] words drawn from the [g]-th on, before
    normalisation. *)
Fixpoint candidates_from (hw : hal) (g n : nat) : list Z :=
  match n with
  | O => []
  | S n' =>
      Z.land (to_uint32 (hal_trng_generate hw g)) Earlier.MAX_TRNG_VAL
      :: candidates_from hw (S g) n'
  end.

(** The array after storing consecutive characters from [index] on. *)
Fixpoint write_chars (index : Z) (chars : list Z)
                     (password : list (option Z)) : list (option Z) :=
  match chars with
  | [] => password
  | c :: chars' =>
      write_chars (index + 1) chars' (<[Z.to_nat index := Some c]> password)
  end.

End EarlierProgram.

(** Loop fuel that suffices for every run of [generate_password]. *)
Definition enough_fuel : nat := 5.

(* ===================================================================== *)
(** ** Vocabulary of the statements *)
(* ===================================================================== *)

(** The visible ASCII band. *)
Definition visible (c : Z) : Prop := 33 <= c <= 126.

(** The bit offsets of the four bytes of a word, in the order the inner loop
    visits them. *)
Definition bit_offsets : list Z := [0; 8; 16; 24].

(** The characters the inner loop derives from the word [w]. *)
Definition word_chars (w : Z) : list Z :=
  List.map (fun off => check_range (candidate_byte w off)) bit_offsets.

(** The [n]-th word drawn after the state [s]. *)
Definition drawn (hw : hal) (s : state) (n : nat) : Z :=
  to_uint32 (hal_trng_generate hw (gen_calls s + n)).

(** The stores of consecutive characters from [index] on. *)
Fixpoint store_events (index : Z) (chars : list Z) : list event :=
  match chars with
  | [] => []
  | c :: chars' => EvStore index c :: store_events (index + 1) chars'
  end.

(** Consecutive characters paired with their indices, from [index] on. *)
Fixpoint indexed (index : Z) (chars : list Z) : list (Z * Z) :=
  match chars with
  | [] => []
  | c :: chars' => (index, c) :: indexed (index + 1) chars'
  end.

(** The array after storing consecutive characters from [index] on. *)
Fixpoint write_chars (index : Z) (chars : list Z) (password : list Z)
  : list Z :=
  match chars with
  | [] => password
  | c :: chars' =>
      write_chars (index + 1) chars' (<[Z.to_nat index := c]> password)
  end.

(** The three texts printed for the password [chars]. *)
Definition password_texts (chars : list Z) : list (list Z) :=
  [ bytes "One-Time Password: " ++ chars ++ CR ++ LF ++ LF;
    bytes "Press the Enter key to generate new password" ++ CR ++ LF;
    SCREEN_HEADER1 ].

(** The events of a call of [generate_password] that acquires the TRNG and
    draws the words [w0] and [w1]. *)
Definition success_events (w0 w1 : Z) : list event :=
  [EvTrngInit true]
  ++ [EvTrngGenerate w0] ++ store_events 0 (word_chars w0)
  ++ [EvTrngGenerate w1] ++ store_events 4 (word_chars w1)
  ++ [EvStore 8 0]
  ++ List.map EvPrintf (password_texts (word_chars w0 ++ word_chars w1))
  ++ [EvTrngFree].

(** The state a call of [generate_password] that acquires the TRNG leaves. *)
Definition success_state (hw : hal) (s : state) : state :=
  State (uart_calls s) (S (init_calls s)) (S (S (gen_calls s))) false
        (uart_read_value s)
        (log s ++ success_events (drawn hw s 0) (drawn hw s 1)).

(** The state a call of [generate_password] that fails to acquire the TRNG
    leaves. *)
Definition failure_state (s : state) : state :=
  State (uart_calls s) (S (init_calls s)) (gen_calls s) (trng_held s)
        (uart_read_value s) (log s ++ [EvTrngInit false]).

(** The state after a call of [cyhal_uart_getc] that answered [r]. *)
Definition received_state (s : state) (r : option Z) : state :=
  State (S (uart_calls s)) (init_calls s) (gen_calls s) (trng_held s)
        (match r with Some b => to_uint8 b | None => uart_read_value s end)
        (log s ++ [EvUartGetc r]).

(** A hardware whose TRNG is always acquired and always draws [w], and whose
    UART always delivers a carriage return. *)
Definition hw_constant (w : Z) : hal :=
  Hal (fun _ => Some ASCII_RETURN_CARRIAGE) (fun _ => true) (fun _ => w).

(** A hardware whose TRNG cannot be acquired the first time and whose UART
    delivers a carriage return, nothing, the letter A, then carriage
    returns. *)
Definition hw_busy_once : hal :=
  Hal (fun n => match n with
                | 1%nat => None
                | 2%nat => Some 65
                | _ => Some ASCII_RETURN_CARRIAGE
                end)
      (fun n => negb (Nat.eqb n 0))
      (fun _ => 0x12345678).

(** The mask that keeps the low 7 bits of each of the four bytes of a
    word. *)
Definition LOW7_OF_EACH_BYTE : Z := 0x7F7F7F7F.

(** A hardware whose TRNG is always acquired and draws the words 0x41,
    0x42, 0x43, 0x44 in turn, over and over. *)
Definition hw_letters : hal :=
  Hal (fun _ => Some ASCII_RETURN_CARRIAGE) (fun _ => true)
      (fun n => 0x41 + Z.of_nat (n mod 4)).

(** The state after a first iteration that received a carriage return and
    failed to acquire the TRNG. *)
Definition after_busy_trigger : state :=
  failure_state (received_state init_state (Some ASCII_RETURN_CARRIAGE)).

(** The events of a call of the earlier [generate_password] that acquires
    the TRNG, and the state it leaves. *)
Definition earlier_success_events (hw : hal) (s : state) : list event :=
  [EvTrngInit true]
  ++ EarlierProgram.turn_events hw (gen_calls s) 0 8
  ++ [EvStore 8 0]
  ++ List.map EvPrintf
       (password_texts (EarlierProgram.chars_from hw (gen_calls s) 8))
  ++ [EvTrngFree].

Definition earlier_success_state (hw : hal) (s : state) : state :=
  State (uart_calls s) (S (init_calls s)) (gen_calls s + 8) false
        (uart_read_value s) (log s ++ earlier_success_events hw s).

(** Whether the answer of [cyhal_uart_getc] is a received carriage
    return. *)
Definition is_trigger (r : option Z) : bool :=
  match r with
  | Some b => to_uint8 b =? ASCII_RETURN_CARRIAGE
  | None => false
  end.

Definition is_getc (e : event) : bool :=
  match e with EvUartGetc _ => true | _ => false end.

(** The candidate bytes of a call of [generate_password] from the state
    [s], in the order of the characters. *)
Definition candidates (hw : hal) (s : state) : list Z :=
  List.map (candidate_byte (drawn hw s 0)) bit_offsets
  ++ List.map (candidate_byte (drawn hw s 1)) bit_offsets.

(** How many of the [n] reads from the [from]-th on receive a carriage
    return. *)
Fixpoint triggers (hw : hal) (from n : nat) : nat :=
  match n with
  | O => 0
  | S n' =>
      ((if is_trigger (hal_uart_getc hw from) then 1 else 0)
       + triggers hw (S from) n')%nat
  end.

(* ===================================================================== *)
(** ** Integer facts *)
(* ===================================================================== *)

Lemma to_uint8_small (z : Z) : 0 <= z < 256 -> to_uint8 z = z.
Proof. intros H. unfold to_uint8. now apply Z.mod_small. Qed.

Lemma to_uint32_small (z : Z) : 0 <= z < 4294967296 -> to_uint32 z = z.
Proof. intros H. unfold to_uint32. now apply Z.mod_small. Qed.

Lemma to_int8_small (z : Z) : 0 <= z < 128 -> to_int8 z = z.
Proof.
  intros H. unfold to_int8. rewrite Z.mod_small by lia.
  destruct (Z.ltb_spec z 128); lia.
Qed.

Lemma land_mask_range (a : Z) : 0 <= Z.land a ASCII_7BIT_MASK <= 127.
Proof.
  change ASCII_7BIT_MASK with (Z.ones 7).
  rewrite Z.land_ones by lia.
  pose proof (Z.mod_pos_bound a (2 ^ 7) ltac:(lia)). lia.
Qed.

Lemma candidate_byte_eq (w off : Z) :
  candidate_byte w off = Z.land (Z.shiftr w off) 0x7F.
Proof.
  unfold candidate_byte. apply to_uint8_small.
  pose proof (land_mask_range (Z.shiftr w off)).
  change ASCII_7BIT_MASK with 0x7F in *. lia.
Qed.

Lemma candidate_byte_range (w off : Z) : 0 <= candidate_byte w off <= 127.
Proof. rewrite candidate_byte_eq. apply land_mask_range. Qed.

(* ===================================================================== *)
(** ** [check_range] *)
(* ===================================================================== *)

Lemma check_range_low (v : Z) : 0 <= v < 33 -> check_range v = v + 33.
Proof.
  intros H. unfold check_range, ASCII_VISIBLE_CHARACTER_START.
  rewrite (to_uint32_small v) by lia.
  destruct (Z.ltb_spec v 33); [|lia].
  rewrite to_uint32_small by lia. apply to_uint8_small. lia.
Qed.

Lemma check_range_high (v : Z) : 33 <= v < 4294967296 -> check_range v = v.
Proof.
  intros H. unfold check_range, ASCII_VISIBLE_CHARACTER_START.
  rewrite (to_uint32_small v) by lia.
  destruct (Z.ltb_spec v 33); [lia|reflexivity].
Qed.

Lemma check_range_bounds (v : Z) : 0 <= v <= 127 -> 33 <= check_range v <= 127.
Proof.
  intros H. destruct (Z.lt_ge_cases v 33).
  - rewrite check_range_low; lia.
  - rewrite check_range_high; lia.
Qed.

(** C1: on a 7-bit candidate byte [v], [check_range] returns [v + 33] when
    [v < 33] and [v] itself when [v >= 33]; it maps 0 to 33, 32 to 65, 33 to
    33, 126 to 126 and 127 to 127. *)
Theorem check_range_spec :
  (forall v : Z, 0 <= v <= 127 ->
     (v < 33 -> check_range v = v + 33) /\
     (33 <= v -> check_range v = v))
  /\ check_range 0 = 33 /\ check_range 32 = 65 /\ check_range 33 = 33
  /\ check_range 126 = 126 /\ check_range 127 = 127.
Proof.
  split; [|repeat split; reflexivity].
  intros v Hv. split; intros H.
  - apply check_range_low. lia.
  - apply check_range_high. lia.
Qed.

Lemma check_range_spec_witness :
  check_range 20 = 20 + 33 /\ check_range 100 = 100.
Proof.
  split.
  - destruct (proj1 check_range_spec 20) as [L _]; [lia|]. apply L. lia.
  - destruct (proj1 check_range_spec 100) as [_ H]; [lia|]. apply H. lia.
Defined.


(** C9: [check_range] is deterministic: applied twice to the same byte it
    returns the same character. *)
Theorem check_range_deterministic :
  forall v1 v2 : Z, v1 = v2 -> check_range v1 = check_range v2.
Proof. intros v1 v2 E. now rewrite E. Qed.

Lemma check_range_deterministic_witness :
  check_range (to_uint8 289) = check_range 33.
Proof. apply (check_range_deterministic (to_uint8 289) 33). reflexivity. Defined.

(** C10: the normalisation of this revision and that of the earlier revision
    agree on every candidate byte in [0,126] and differ at 127 only, where
    this revision gives 127 and the earlier one 94. *)
Theorem check_range_vs_earlier :
  (forall v : Z, 0 <= v <= 126 ->
     check_range v = to_uint8 (Earlier.normalize v))
  /\ (forall v : Z, 0 <= v <= 127 ->
        (check_range v <> to_uint8 (Earlier.normalize v) <-> v = 127))
  /\ check_range 127 = 127
  /\ to_uint8 (Earlier.normalize 127) = 94.
Proof.
  assert (A : forall v : Z, 0 <= v <= 126 ->
            check_range v = to_uint8 (Earlier.normalize v)).
  { intros v Hv. unfold Earlier.normalize,
      Earlier.ASCII_ALPHANUMERIC_LOWER_LIMIT,
      Earlier.ASCII_ALPHANUMERIC_UPPER_LIMIT.
    destruct (Z.ltb_spec v 33).
    - rewrite check_range_low, to_uint32_small, to_uint8_small; lia.
    - destruct (Z.leb_spec 127 v); [lia|].
      rewrite check_range_high, to_uint8_small; lia. }
  split; [exact A|]. split; [|split; reflexivity].
  intros v Hv. split.
  - intros D. destruct (Z.eq_dec v 127) as [|N]; [assumption|].
    exfalso. apply D, A. lia.
  - intros ->. discriminate.
Qed.

(** The earlier revision stores visible characters only. *)
Lemma earlier_password_char_visible (w : Z) :
  visible (Earlier.password_char w).
Proof.
  unfold Earlier.password_char, Earlier.MAX_TRNG_VAL.
  pose proof (land_mask_range (to_uint32 w)) as R.
  change ASCII_7BIT_MASK with 0x7F in R.
  set (v := Z.land (to_uint32 w) 0x7F) in *.
  unfold visible, Earlier.normalize, Earlier.ASCII_ALPHANUMERIC_LOWER_LIMIT,
    Earlier.ASCII_ALPHANUMERIC_UPPER_LIMIT.
  destruct (Z.ltb_spec v 33).
  - rewrite to_uint32_small, to_uint8_small; lia.
  - destruct (Z.leb_spec 127 v).
    + rewrite to_uint32_small, to_uint8_small; lia.
    + rewrite to_uint8_small; lia.
Qed.

Lemma check_range_vs_earlier_witness :
  check_range 32 = to_uint8 (Earlier.normalize 32)
  /\ check_range 127 <> to_uint8 (Earlier.normalize 127).
Proof.
  split.
  - apply (proj1 check_range_vs_earlier 32). lia.
  - apply (proj1 (proj2 check_range_vs_earlier) 127); [lia|reflexivity].
Defined.

(* ===================================================================== *)
(** ** Running the loops of [generate_password] *)
(* ===================================================================== *)

Lemma append_log_app (s : state) (l1 l2 : list event) :
  append_log (append_log s l1) l2 = append_log s (l1 ++ l2).
Proof. unfold append_log. simpl. now rewrite <- app_assoc. Qed.

Lemma store_ok (password : list Z) (index value : Z) (s : state) :
  0 <= index < 9 ->
  store password index value s
  = Done (<[Z.to_nat index := value]> password,
          append_log s [EvStore index value]).
Proof.
  intros H. unfold store, password_size, PASSWORD_LENGTH.
  destruct (Z.leb_spec 0 index); [|lia].
  destruct (Z.ltb_spec index (8 + 1)); [|lia].
  reflexivity.
Qed.

Lemma store_fault (password : list Z) (index value : Z) (s : state) :
  index < 0 \/ 9 <= index -> store password index value s = Fault.
Proof.
  intros H. unfold store, password_size, PASSWORD_LENGTH.
  destruct (Z.leb_spec 0 index); destruct (Z.ltb_spec index (8 + 1));
    try reflexivity; lia.
Qed.

(** One turn of the inner loop. *)
Lemma inner_for_step (fuel : nat) (w j bit_position index : Z)
      (password : list Z) (s : state) :
  j < 4 -> bit_position < 32 -> 0 <= index < 9 ->
  inner_for (S fuel) w j bit_position index password s
  = inner_for fuel w (to_int8 (j + 1)) (to_uint8 (bit_position + 8))
      (to_int8 (index + 1))
      (<[Z.to_nat index := check_range (candidate_byte w bit_position)]>
         password)
      (append_log s
         [EvStore index (check_range (candidate_byte w bit_position))]).
Proof.
  intros Hj Hb Hi. cbn [inner_for].
  destruct (Z.ltb_spec j 4); [|lia].
  destruct (Z.leb_spec 32 bit_position); [lia|].
  unfold bind. now rewrite store_ok.
Qed.

(** The exit of the inner loop. *)
Lemma inner_for_exit (fuel : nat) (w j bit_position index : Z)
      (password : list Z) (s : state) :
  4 <= j ->
  inner_for (S fuel) w j bit_position index password s
  = Done ((index, password), s).
Proof.
  intros Hj. cbn [inner_for]. destruct (Z.ltb_spec j 4); [lia|reflexivity].
Qed.

(** A whole run of the inner loop on the word [w]. *)
Lemma inner_for_run (fuel : nat) (w index : Z) (password : list Z)
      (s : state) :
  (5 <= fuel)%nat -> 0 <= index <= 5 ->
  inner_for fuel w 0 0 index password s
  = Done ((index + 4, write_chars index (word_chars w) password),
          append_log s (store_events index (word_chars w))).
Proof.
  intros Hf Hi.
  do 5 (destruct fuel as [|fuel]; [lia|]).
  rewrite inner_for_step by lia.
  rewrite (to_int8_small (index + 1)) by lia.
  change (to_int8 (0 + 1)) with 1. change (to_uint8 (0 + 8)) with 8.
  rewrite inner_for_step by lia.
  rewrite (to_int8_small (index + 1 + 1)) by lia.
  change (to_int8 (1 + 1)) with 2. change (to_uint8 (8 + 8)) with 16.
  rewrite inner_for_step by lia.
  rewrite (to_int8_small (index + 1 + 1 + 1)) by lia.
  change (to_int8 (2 + 1)) with 3. change (to_uint8 (16 + 8)) with 24.
  rewrite inner_for_step by lia.
  rewrite (to_int8_small (index + 1 + 1 + 1 + 1)) by lia.
  change (to_int8 (3 + 1)) with 4.
  rewrite inner_for_exit by lia.
  rewrite !append_log_app.
  replace (index + 1 + 1 + 1 + 1) with (index + 4) by lia.
  reflexivity.
Qed.

(** The exit of the outer loop. *)
Lemma outer_for_exit (hw : hal) (fuel_j fuel : nat) (index : Z)
      (password : list Z) (s : state) :
  8 <= index < 128 ->
  outer_for hw fuel_j (S fuel) index password s = Done ((index, password), s).
Proof.
  intros Hi. cbn [outer_for]. rewrite to_uint32_small by lia.
  unfold PASSWORD_LENGTH. destruct (Z.ltb_spec index 8); [lia|reflexivity].
Qed.

(** One turn of the outer loop. *)
Lemma outer_for_step (hw : hal) (fuel_j fuel : nat) (index : Z)
      (password : list Z) (s : state) :
  (5 <= fuel_j)%nat -> 0 <= index <= 5 -> trng_held s = true ->
  outer_for hw fuel_j (S fuel) index password s
  = outer_for hw fuel_j fuel (index + 4)
      (write_chars index (word_chars (drawn hw s 0)) password)
      (State (uart_calls s) (init_calls s) (S (gen_calls s)) true
         (uart_read_value s)
         (log s ++ EvTrngGenerate (drawn hw s 0)
                :: store_events index (word_chars (drawn hw s 0)))).
Proof.
  intros Hf Hi Hh. cbn [outer_for]. rewrite to_uint32_small by lia.
  unfold PASSWORD_LENGTH. destruct (Z.ltb_spec index 8); [|lia].
  unfold bind at 1. unfold cyhal_trng_generate. rewrite Hh.
  unfold bind. rewrite inner_for_run by assumption.
  unfold drawn. rewrite Nat.add_0_r. unfold append_log. cbn [log uart_calls
    init_calls gen_calls trng_held uart_read_value].
  now rewrite <- app_assoc.
Qed.

(** A whole run of the outer loop: two words are drawn. *)
Lemma outer_for_run (hw : hal) (fuel_j fuel : nat) (s : state) :
  (5 <= fuel_j)%nat -> (3 <= fuel)%nat -> trng_held s = true ->
  outer_for hw fuel_j fuel 0 password_init s
  = Done ((8, word_chars (drawn hw s 0) ++ word_chars (drawn hw s 1) ++ [0]),
          State (uart_calls s) (init_calls s) (S (S (gen_calls s))) true
            (uart_read_value s)
            (log s
             ++ [EvTrngGenerate (drawn hw s 0)]
             ++ store_events 0 (word_chars (drawn hw s 0))
             ++ [EvTrngGenerate (drawn hw s 1)]
             ++ store_events 4 (word_chars (drawn hw s 1)))).
Proof.
  intros Hj Hf Hh.
  do 3 (destruct fuel as [|fuel]; [lia|]).
  rewrite outer_for_step by (assumption || lia).
  rewrite outer_for_step by (assumption || reflexivity || lia).
  rewrite outer_for_exit by lia.
  unfold drawn. cbn [gen_calls log uart_calls init_calls uart_read_value].
  rewrite !Nat.add_0_r, Nat.add_1_r, <- app_assoc.
  reflexivity.
Qed.

Lemma c_string_terminated (chars rest : list Z) :
  Forall (fun c => c <> 0) chars ->
  c_string (chars ++ 0 :: rest) = Some chars.
Proof.
  induction 1 as [|c chars Hc _ IH]; [reflexivity|].
  cbn [c_string app]. destruct (Z.eqb_spec c 0); [contradiction|].
  now rewrite IH.
Qed.

Lemma word_chars_length (w : Z) : length (word_chars w) = 4%nat.
Proof. reflexivity. Qed.

Lemma word_chars_bounds (w : Z) :
  Forall (fun c => 33 <= c <= 127) (word_chars w).
Proof.
  unfold word_chars. apply Forall_map, Forall_forall. intros off _.
  apply check_range_bounds, candidate_byte_range.
Qed.

Lemma word_chars_nonzero (w : Z) : Forall (fun c => c <> 0) (word_chars w).
Proof.
  eapply Forall_impl; [apply word_chars_bounds|]. cbn. intros c H. lia.
Qed.

(** [generate_password] when [cyhal_trng_init] succeeds. *)
Lemma generate_password_success (hw : hal) (fuel : nat) (s : state) :
  (enough_fuel <= fuel)%nat ->
  hal_trng_init hw (init_calls s) = true ->
  generate_password hw fuel s = Done (tt, success_state hw s).
Proof.
  unfold enough_fuel. intros Hf Hi.
  unfold generate_password. unfold bind at 1. unfold cyhal_trng_init.
  rewrite Hi. cbn iota. unfold bind at 1.
  rewrite outer_for_run by (assumption || reflexivity || lia).
  unfold bind at 1. rewrite store_ok by lia.
  replace (<[Z.to_nat 8:=0]>
             (word_chars (drawn hw _ 0) ++ word_chars (drawn hw _ 1) ++ [0]))
    with ((word_chars (drawn hw s 0) ++ word_chars (drawn hw s 1)) ++ [0])
    by reflexivity.
  rewrite c_string_terminated
    by (apply Forall_app; split; apply word_chars_nonzero).
  unfold bind, printf, emit, cyhal_trng_free, append_log, success_state,
    success_events.
  cbn [trng_held log uart_calls init_calls gen_calls uart_read_value
       password_texts List.map].
  unfold drawn. cbn [gen_calls].
  repeat rewrite <- app_assoc. reflexivity.
Qed.

(** [generate_password] when [cyhal_trng_init] fails. *)
Lemma generate_password_failure (hw : hal) (fuel : nat) (s : state) :
  hal_trng_init hw (init_calls s) = false ->
  generate_password hw fuel s = Done (tt, failure_state s).
Proof.
  intros Hi. unfold generate_password, bind, cyhal_trng_init.
  now rewrite Hi.
Qed.

(** [generate_password] returns, whatever the hardware answers. *)
Lemma generate_password_returns (hw : hal) (fuel : nat) (s : state) :
  (enough_fuel <= fuel)%nat ->
  generate_password hw fuel s
  = Done (tt, if hal_trng_init hw (init_calls s)
              then success_state hw s else failure_state s).
Proof.
  intros Hf. destruct (hal_trng_init hw (init_calls s)) eqn:Hi.
  - now apply generate_password_success.
  - now apply generate_password_failure.
Qed.

(* ===================================================================== *)
(** ** Reading logs *)
(* ===================================================================== *)

Lemma output_app (l1 l2 : list event) :
  output (l1 ++ l2) = output l1 ++ output l2.
Proof.
  induction l1 as [|e l1 IH]; [reflexivity|].
  destruct e; cbn [output app]; now rewrite IH.
Qed.

Lemma stores_app (l1 l2 : list event) :
  stores (l1 ++ l2) = stores l1 ++ stores l2.
Proof.
  induction l1 as [|e l1 IH]; [reflexivity|].
  destruct e; cbn [stores app]; now rewrite IH.
Qed.

Lemma count_app (p : event -> bool) (l1 l2 : list event) :
  count p (l1 ++ l2) = (count p l1 + count p l2)%nat.
Proof. unfold count. now rewrite List.filter_app, length_app. Qed.

Lemma stores_store_events (index : Z) (chars : list Z) :
  stores (store_events index chars) = indexed index chars.
Proof.
  revert index. induction chars as [|c chars IH]; intros index;
    [reflexivity|]. cbn [store_events stores indexed]. now rewrite IH.
Qed.

Lemma stores_success_events (w0 w1 : Z) :
  stores (success_events w0 w1)
  = indexed 0 (word_chars w0 ++ word_chars w1) ++ [(8, 0)].
Proof. reflexivity. Qed.

Lemma output_success_events (w0 w1 : Z) :
  output (success_events w0 w1)
  = password_texts (word_chars w0 ++ word_chars w1).
Proof. reflexivity. Qed.

(* ===================================================================== *)
(** ** The loop of [main] *)
(* ===================================================================== *)

Lemma loop_body_no_input (hw : hal) (fuel : nat) (s : state) :
  hal_uart_getc hw (uart_calls s) = None ->
  loop_body hw fuel s = Done (tt, received_state s None).
Proof.
  intros H. unfold loop_body, bind, cyhal_uart_getc, received_state.
  now rewrite H.
Qed.

Lemma loop_body_other (hw : hal) (fuel : nat) (s : state) (b : Z) :
  hal_uart_getc hw (uart_calls s) = Some b ->
  to_uint8 b <> ASCII_RETURN_CARRIAGE ->
  loop_body hw fuel s = Done (tt, received_state s (Some b)).
Proof.
  intros H N. unfold loop_body, bind, cyhal_uart_getc, received_state,
    read_uart_read_value.
  rewrite H. cbn [uart_read_value].
  destruct (Z.eqb_spec (to_uint8 b) ASCII_RETURN_CARRIAGE);
    [contradiction|reflexivity].
Qed.

Lemma loop_body_trigger (hw : hal) (fuel : nat) (s : state) (b : Z) :
  hal_uart_getc hw (uart_calls s) = Some b ->
  to_uint8 b = ASCII_RETURN_CARRIAGE ->
  loop_body hw fuel s = generate_password hw fuel (received_state s (Some b)).
Proof.
  intros H E. unfold loop_body, bind at 1, cyhal_uart_getc, received_state,
    read_uart_read_value.
  rewrite H. unfold bind at 1. cbn [uart_read_value].
  rewrite E. reflexivity.
Qed.

Lemma main_loop_unfold (hw : hal) (n fuel : nat) (s s' : state) :
  loop_body hw fuel s = Done (tt, s') ->
  main_loop hw (S n) fuel s = main_loop hw n fuel s'.
Proof. intros H. cbn [main_loop]. unfold bind. now rewrite H. Qed.

(** An iteration returns and leaves the TRNG as it found it when it was not
    held. *)
Lemma loop_body_returns (hw : hal) (fuel : nat) (s : state) :
  (enough_fuel <= fuel)%nat -> trng_held s = false ->
  exists s', loop_body hw fuel s = Done (tt, s') /\ trng_held s' = false.
Proof.
  intros Hf Hh.
  destruct (hal_uart_getc hw (uart_calls s)) as [b|] eqn:Hr.
  - destruct (Z.eq_dec (to_uint8 b) ASCII_RETURN_CARRIAGE) as [E|N].
    + rewrite (loop_body_trigger _ _ _ _ Hr E).
      rewrite generate_password_returns by assumption.
      eexists. split; [reflexivity|].
      cbn [init_calls received_state].
      destruct (hal_trng_init hw (init_calls s)); [reflexivity|exact Hh].
    + rewrite (loop_body_other _ _ _ _ Hr N).
      eexists. split; [reflexivity|exact Hh].
  - rewrite (loop_body_no_input _ _ _ Hr).
    eexists. split; [reflexivity|exact Hh].
Qed.

(** Any number of iterations returns, with the TRNG not held. *)
Lemma main_loop_returns (hw : hal) (n fuel : nat) (s : state) :
  (enough_fuel <= fuel)%nat -> trng_held s = false ->
  exists s', main_loop hw n fuel s = Done (tt, s') /\ trng_held s' = false.
Proof.
  intros Hf. revert s. induction n as [|n IH]; intros s Hh.
  - exists s. split; [reflexivity|assumption].
  - destruct (loop_body_returns hw fuel s Hf Hh) as (s1 & E1 & H1).
    rewrite (main_loop_unfold _ _ _ _ _ E1). now apply IH.
Qed.

(* ===================================================================== *)
(** ** Properties of the password generator *)
(* ===================================================================== *)

(** C5: from every word [w] the inner loop extracts exactly four candidate
    bytes, at the bit offsets 0, 8, 16 and 24, each equal to
    [(w >> offset) & 0x7F] and so between 0 and 127; their range-corrected
    values are what it stores. *)
Theorem word_extraction (fuel : nat) (w index : Z) (password : list Z)
        (s : state) :
  (enough_fuel <= fuel)%nat -> 0 <= index <= 5 ->
  let candidates :=
    [ Z.land (Z.shiftr w 0) 0x7F; Z.land (Z.shiftr w 8) 0x7F;
      Z.land (Z.shiftr w 16) 0x7F; Z.land (Z.shiftr w 24) 0x7F ] in
  inner_for fuel w 0 0 index password s
  = Done ((index + 4,
           write_chars index (List.map check_range candidates) password),
          append_log s (store_events index (List.map check_range candidates)))
  /\ List.map (candidate_byte w) bit_offsets = candidates
  /\ Forall (fun v => 0 <= v <= 127) candidates.
Proof.
  intros Hf Hi candidates.
  assert (E : List.map (candidate_byte w) bit_offsets = candidates).
  { unfold bit_offsets, candidates. cbn [List.map].
    now rewrite !candidate_byte_eq. }
  split; [|split; [exact E|]].
  - rewrite inner_for_run by assumption.
    unfold word_chars. rewrite <- E.
    rewrite !List.map_map. reflexivity.
  - rewrite <- E. apply Forall_map, Forall_forall. intros off _.
    apply candidate_byte_range.
Qed.

Lemma word_extraction_witness :
  inner_for 5 0x7F410020 0 0 4 password_init init_state
  = Done ((8, [0; 0; 0; 0; 65; 33; 65; 127; 0]),
          append_log init_state
            [EvStore 4 65; EvStore 5 33; EvStore 6 65; EvStore 7 127]).
Proof.
  apply (word_extraction 5 0x7F410020 4 password_init init_state).
  - unfold enough_fuel. lia.
  - lia.
Defined.

(** C2, evaluated on a hardware that draws the word 0x7F: the password holds
    the character 127, outside the visible band [33,126]. *)
Theorem generate_password_emits_del :
  exists s' : state,
    generate_password (hw_constant 0x7F) enough_fuel init_state
    = Done (tt, s')
    /\ stores (log s')
       = [(0, 127); (1, 33); (2, 33); (3, 33);
          (4, 127); (5, 33); (6, 33); (7, 33); (8, 0)]
    /\ output (log s') = password_texts [127; 33; 33; 33; 127; 33; 33; 33]
    /\ ~ visible 127.
Proof.
  exists (success_state (hw_constant 0x7F) init_state).
  split; [apply generate_password_success; reflexivity|].
  split; [vm_compute; reflexivity|].
  split; [vm_compute; reflexivity|]. unfold visible. lia.
Qed.

(** C3: a call of [generate_password] that acquires the TRNG returns having
    stored exactly 8 characters, none of them zero, and the terminator right
    after the 8th; the password it prints has exactly 8 characters. *)
Theorem generate_password_length (hw : hal) (fuel : nat) (s : state) :
  (enough_fuel <= fuel)%nat ->
  hal_trng_init hw (init_calls s) = true ->
  exists (chars : list Z) (evs : list event) (s' : state),
    generate_password hw fuel s = Done (tt, s')
    /\ log s' = log s ++ evs
    /\ length chars = 8%nat
    /\ Forall (fun c => c <> 0) chars
    /\ stores evs = indexed 0 chars ++ [(8, 0)]
    /\ write_chars 0 (chars ++ [0]) password_init = chars ++ [0]
    /\ c_string (chars ++ [0]) = Some chars
    /\ output evs = password_texts chars.
Proof.
  intros Hf Hi.
  exists (word_chars (drawn hw s 0) ++ word_chars (drawn hw s 1)),
         (success_events (drawn hw s 0) (drawn hw s 1)),
         (success_state hw s).
  assert (NZ : Forall (fun c => c <> 0)
                 (word_chars (drawn hw s 0) ++ word_chars (drawn hw s 1)))
    by (apply Forall_app; split; apply word_chars_nonzero).
  split; [now apply generate_password_success|].
  split; [reflexivity|]. split; [reflexivity|]. split; [exact NZ|].
  split; [apply stores_success_events|]. split; [reflexivity|].
  split; [now apply c_string_terminated|apply output_success_events].
Qed.

Lemma generate_password_length_witness :
  exists (chars : list Z) (evs : list event) (s' : state),
    generate_password (hw_constant 0x12345678) 5 init_state = Done (tt, s')
    /\ log s' = log init_state ++ evs
    /\ length chars = 8%nat
    /\ Forall (fun c => c <> 0) chars
    /\ stores evs = indexed 0 chars ++ [(8, 0)]
    /\ write_chars 0 (chars ++ [0]) password_init = chars ++ [0]
    /\ c_string (chars ++ [0]) = Some chars
    /\ output evs = password_texts chars.
Proof.
  apply (generate_password_length (hw_constant 0x12345678) 5 init_state).
  - unfold enough_fuel. lia.
  - reflexivity.
Defined.

(** C7: in a call of [generate_password] that acquires the TRNG, the
    characters are stored at the indices 0 to 7 and nowhere else, two words
    are drawn and no more, and the terminator is stored at index 8. *)
Theorem password_store_indices (hw : hal) (fuel : nat) (s : state) :
  (enough_fuel <= fuel)%nat ->
  hal_trng_init hw (init_calls s) = true ->
  exists (chars : list Z) (evs : list event) (s' : state),
    generate_password hw fuel s = Done (tt, s')
    /\ log s' = log s ++ evs
    /\ stores evs = indexed 0 chars ++ [(8, 0)]
    /\ List.map fst (indexed 0 chars) = [0; 1; 2; 3; 4; 5; 6; 7]
    /\ List.map fst (stores evs) = [0; 1; 2; 3; 4; 5; 6; 7; 8]
    /\ Forall (fun iv => 0 <= fst iv <= 8) (stores evs)
    /\ gen_calls s' = (gen_calls s + 2)%nat.
Proof.
  intros Hf Hi.
  exists (word_chars (drawn hw s 0) ++ word_chars (drawn hw s 1)),
         (success_events (drawn hw s 0) (drawn hw s 1)),
         (success_state hw s).
  split; [now apply generate_password_success|].
  split; [reflexivity|]. split; [apply stores_success_events|].
  split; [reflexivity|]. split; [reflexivity|].
  split.
  - rewrite stores_success_events. cbn.
    repeat (constructor; [cbn; lia|]). constructor.
  - cbn [success_state gen_calls]. lia.
Qed.

Lemma password_store_indices_witness :
  exists (chars : list Z) (evs : list event) (s' : state),
    generate_password (hw_constant 0xFFFFFFFF) 7 init_state = Done (tt, s')
    /\ log s' = log init_state ++ evs
    /\ stores evs = indexed 0 chars ++ [(8, 0)]
    /\ List.map fst (indexed 0 chars) = [0; 1; 2; 3; 4; 5; 6; 7]
    /\ List.map fst (stores evs) = [0; 1; 2; 3; 4; 5; 6; 7; 8]
    /\ Forall (fun iv => 0 <= fst iv <= 8) (stores evs)
    /\ gen_calls s' = (gen_calls init_state + 2)%nat.
Proof.
  apply (password_store_indices (hw_constant 0xFFFFFFFF) 7 init_state).
  - unfold enough_fuel. lia.
  - reflexivity.
Defined.

(** C8: a call of [generate_password] that acquires the TRNG frees it
    exactly once, as its last action, and returns with the TRNG not held;
    after any number of iterations of the loop of [main] the TRNG is not
    held. *)
Theorem trng_released_once (hw : hal) (fuel : nat) (s : state) :
  (enough_fuel <= fuel)%nat ->
  trng_held s = false ->
  (hal_trng_init hw (init_calls s) = true ->
   exists (evs : list event) (s' : state),
     generate_password hw fuel s = Done (tt, s')
     /\ log s' = log s ++ evs
     /\ count is_acquire evs = 1%nat
     /\ count is_free evs = 1%nat
     /\ last evs = Some EvTrngFree
     /\ head evs = Some (EvTrngInit true)
     /\ trng_held s' = false)
  /\ (forall n : nat,
        exists s' : state,
          main_loop hw n fuel s = Done (tt, s') /\ trng_held s' = false).
Proof.
  intros Hf Hh. split.
  - intros Hi.
    exists (success_events (drawn hw s 0) (drawn hw s 1)), (success_state hw s).
    split; [now apply generate_password_success|].
    repeat split; reflexivity.
  - intros n. now apply main_loop_returns.
Qed.

Lemma trng_released_once_witness :
  (hal_trng_init hw_busy_once (init_calls (failure_state init_state)) = true ->
   exists (evs : list event) (s' : state),
     generate_password hw_busy_once 5 (failure_state init_state)
     = Done (tt, s')
     /\ log s' = log (failure_state init_state) ++ evs
     /\ count is_acquire evs = 1%nat
     /\ count is_free evs = 1%nat
     /\ last evs = Some EvTrngFree
     /\ head evs = Some (EvTrngInit true)
     /\ trng_held s' = false)
  /\ (forall n : nat,
        exists s' : state,
          main_loop hw_busy_once n 5 (failure_state init_state)
          = Done (tt, s') /\ trng_held s' = false).
Proof.
  apply (trng_released_once hw_busy_once 5 (failure_state init_state)).
  - unfold enough_fuel. lia.
  - reflexivity.
Defined.

(** C4: when the byte read is a carriage return and [cyhal_trng_init]
    fails, the iteration returns having printed nothing and stored nothing,
    its only events being the read and the failed initialisation; the loop
    goes on, and an iteration that later reads a carriage return calls
    [cyhal_trng_init] anew, printing a password when that call succeeds. *)
Theorem acquisition_failure_is_silent (hw : hal) (fuel : nat) (s : state)
        (b : Z) :
  (enough_fuel <= fuel)%nat ->
  hal_uart_getc hw (uart_calls s) = Some b ->
  to_uint8 b = ASCII_RETURN_CARRIAGE ->
  hal_trng_init hw (init_calls s) = false ->
  let s1 := failure_state (received_state s (Some b)) in
  generate_password hw fuel (received_state s (Some b)) = Done (tt, s1)
  /\ loop_body hw fuel s = Done (tt, s1)
  /\ log s1 = log s ++ [EvUartGetc (Some b); EvTrngInit false]
  /\ output (log s1) = output (log s)
  /\ stores (log s1) = stores (log s)
  /\ trng_held s1 = trng_held s
  /\ (forall n : nat, main_loop hw (S n) fuel s = main_loop hw n fuel s1)
  /\ (forall (s2 : state) (b' : Z),
        hal_uart_getc hw (uart_calls s2) = Some b' ->
        to_uint8 b' = ASCII_RETURN_CARRIAGE ->
        let r := received_state s2 (Some b') in
        loop_body hw fuel s2
        = Done (tt, if hal_trng_init hw (init_calls s2)
                    then success_state hw r else failure_state r)
        /\ count is_init (log r) = count is_init (log s2)
        /\ count is_init (log (if hal_trng_init hw (init_calls s2)
                               then success_state hw r else failure_state r))
           = S (count is_init (log s2))
        /\ (hal_trng_init hw (init_calls s2) = true ->
            output (log (success_state hw r))
            = output (log s2)
              ++ password_texts (word_chars (drawn hw s2 0)
                                 ++ word_chars (drawn hw s2 1)))).
Proof.
  intros Hf Hr Hb Hi s1.
  assert (G : generate_password hw fuel (received_state s (Some b))
              = Done (tt, s1))
    by now apply generate_password_failure.
  assert (L : loop_body hw fuel s = Done (tt, s1))
    by now rewrite (loop_body_trigger _ _ _ _ Hr Hb).
  split; [exact G|]. split; [exact L|].
  split; [subst s1; cbn [failure_state received_state log];
          now rewrite <- app_assoc|].
  split; [subst s1; cbn [failure_state received_state log];
          rewrite !output_app; cbn; now rewrite !app_nil_r|].
  split; [subst s1; cbn [failure_state received_state log];
          rewrite !stores_app; cbn; now rewrite !app_nil_r|].
  split; [reflexivity|].
  split; [intros n; now apply main_loop_unfold|].
  intros s2 b' Hr' Hb' r.
  split.
  { rewrite (loop_body_trigger _ _ _ _ Hr' Hb').
    now rewrite generate_password_returns. }
  split.
  { subst r. cbn [received_state log]. rewrite count_app. cbn. lia. }
  split.
  { destruct (hal_trng_init hw (init_calls s2));
      subst r; cbn [success_state failure_state received_state log];
      rewrite !count_app; cbn; lia. }
  intros _. subst r. cbn [success_state received_state log].
  rewrite !output_app, output_success_events. cbn [output].
  now rewrite app_nil_r.
Qed.

Lemma acquisition_failure_is_silent_witness :
  loop_body hw_busy_once 5 init_state
  = Done (tt, failure_state (received_state init_state (Some 13)))
  /\ output (log (failure_state (received_state init_state (Some 13)))) = [].
Proof.
  pose proof (acquisition_failure_is_silent hw_busy_once 5 init_state 13) as H.
  cbv zeta in H.
  destruct H as (_ & L & _ & O & _).
  - unfold enough_fuel. lia.
  - reflexivity.
  - reflexivity.
  - reflexivity.
  - split; [exact L|exact O].
Defined.

(** C6: an iteration that reads a carriage return calls [generate_password]
    once ([cyhal_trng_init] is called exactly once in it); an iteration that
    reads any other byte prints nothing, its only event being the read, and
    the loop goes on polling. *)
Theorem trigger_dispatch (hw : hal) (fuel : nat) (s : state) (b : Z) :
  (enough_fuel <= fuel)%nat ->
  hal_uart_getc hw (uart_calls s) = Some b ->
  let r := received_state s (Some b) in
  (to_uint8 b = ASCII_RETURN_CARRIAGE ->
   loop_body hw fuel s = generate_password hw fuel r
   /\ exists (evs : list event) (s' : state),
        loop_body hw fuel s = Done (tt, s')
        /\ log s' = log r ++ evs
        /\ count is_init evs = 1%nat
        /\ init_calls s' = S (init_calls s))
  /\ (to_uint8 b <> ASCII_RETURN_CARRIAGE ->
      loop_body hw fuel s = Done (tt, r)
      /\ log r = log s ++ [EvUartGetc (Some b)]
      /\ output (log r) = output (log s)
      /\ init_calls r = init_calls s
      /\ gen_calls r = gen_calls s
      /\ forall n : nat, main_loop hw (S n) fuel s = main_loop hw n fuel r).
Proof.
  intros Hf Hr r. split.
  - intros E.
    pose proof (loop_body_trigger _ fuel _ _ Hr E) as L. fold r in L.
    split; [exact L|]. rewrite L.
    rewrite generate_password_returns by assumption.
    destruct (hal_trng_init hw (init_calls r)).
    + exists (success_events (drawn hw r 0) (drawn hw r 1)), (success_state hw r).
      repeat split; reflexivity.
    + exists [EvTrngInit false], (failure_state r).
      repeat split; reflexivity.
  - intros N.
    pose proof (loop_body_other _ fuel _ _ Hr N) as L. fold r in L.
    split; [exact L|]. split; [reflexivity|].
    split; [subst r; cbn [received_state log]; rewrite output_app; cbn;
            now rewrite app_nil_r|].
    split; [reflexivity|]. split; [reflexivity|].
    intros n. now apply main_loop_unfold.
Qed.

Lemma trigger_dispatch_witness :
  loop_body hw_busy_once 5
    (received_state (failure_state (received_state init_state (Some 13))) None)
  = Done (tt, received_state
                (received_state
                   (failure_state (received_state init_state (Some 13))) None)
                (Some 65)).
Proof.
  pose proof (trigger_dispatch hw_busy_once 5
    (received_state (failure_state (received_state init_state (Some 13))) None)
    65) as H.
  cbv zeta in H.
  destruct H as (_ & O).
  - unfold enough_fuel. lia.
  - reflexivity.
  - destruct O as (L & _); [discriminate|exact L].
Defined.

(* ===================================================================== *)
(** ** Further properties of [check_range] *)
(* ===================================================================== *)

(** X1: on every [uint8_t] value [check_range] is idempotent, never yields less
    than its argument or than 33, and stays within [uint8_t]: the addition
    does not wrap. *)
Theorem check_range_idempotent (v : Z) :
  0 <= v <= 255 ->
  check_range (check_range v) = check_range v
  /\ v <= check_range v
  /\ 33 <= check_range v <= 255.
Proof.
  intros H. destruct (Z.lt_ge_cases v 33).
  - rewrite (check_range_low v) by lia.
    rewrite check_range_high by lia. lia.
  - rewrite !(check_range_high v) by lia. lia.
Qed.

Lemma check_range_idempotent_witness :
  check_range (check_range 200) = check_range 200
  /\ 200 <= check_range 200
  /\ 33 <= check_range 200 <= 255.
Proof. apply (check_range_idempotent 200). lia. Defined.

(** X2: the characters 33 to 65 are each the image of two candidate bytes ([c]
    and [c - 33]), the characters 66 to 127 of one: the 128 candidate bytes
    are mapped onto 95 characters, 33 of them twice as likely. *)
Theorem check_range_preimages (v c : Z) :
  0 <= v <= 127 ->
  (33 <= c <= 65 -> (check_range v = c <-> v = c \/ v = c - 33))
  /\ (66 <= c <= 127 -> (check_range v = c <-> v = c))
  /\ (c < 33 \/ 127 < c -> check_range v <> c).
Proof.
  intros H. destruct (Z.lt_ge_cases v 33).
  - rewrite check_range_low by lia. repeat split; intros; lia.
  - rewrite check_range_high by lia. repeat split; intros; lia.
Qed.

Lemma check_range_preimages_witness :
  check_range 7 = 40 <-> 7 = 40 \/ 7 = 40 - 33.
Proof.
  destruct (check_range_preimages 7 40) as (P & _); [lia|].
  apply P. lia.
Defined.

(* ===================================================================== *)
(** ** What the password depends on *)
(* ===================================================================== *)

Lemma candidate_byte_masked (w off : Z) :
  In off bit_offsets ->
  candidate_byte (Z.land w LOW7_OF_EACH_BYTE) off = candidate_byte w off.
Proof.
  intros Hin. rewrite !candidate_byte_eq.
  rewrite Z.shiftr_land, <- Z.land_assoc.
  f_equal.
  cbn in Hin. destruct Hin as [<-|[<-|[<-|[<-|[]]]]]; reflexivity.
Qed.

Lemma word_chars_masked (w : Z) :
  word_chars (Z.land w LOW7_OF_EACH_BYTE) = word_chars w.
Proof.
  unfold word_chars. apply List.map_ext_in. intros off Hin.
  now rewrite candidate_byte_masked.
Qed.

(** X3: bit 7 of every byte of a drawn word is ignored: two runs whose words
    agree on the low 7 bits of each byte store and print the same
    password. *)
Theorem top_bits_ignored (hw1 hw2 : hal) (fuel : nat) (s : state) :
  (enough_fuel <= fuel)%nat ->
  hal_trng_init hw1 (init_calls s) = true ->
  hal_trng_init hw2 (init_calls s) = true ->
  Z.land (drawn hw1 s 0) LOW7_OF_EACH_BYTE
  = Z.land (drawn hw2 s 0) LOW7_OF_EACH_BYTE ->
  Z.land (drawn hw1 s 1) LOW7_OF_EACH_BYTE
  = Z.land (drawn hw2 s 1) LOW7_OF_EACH_BYTE ->
  exists s1 s2 : state,
    generate_password hw1 fuel s = Done (tt, s1)
    /\ generate_password hw2 fuel s = Done (tt, s2)
    /\ output (log s1) = output (log s2)
    /\ stores (log s1) = stores (log s2).
Proof.
  intros Hf H1 H2 E0 E1.
  exists (success_state hw1 s), (success_state hw2 s).
  split; [now apply generate_password_success|].
  split; [now apply generate_password_success|].
  assert (W0 : word_chars (drawn hw1 s 0) = word_chars (drawn hw2 s 0))
    by (rewrite <- (word_chars_masked (drawn hw1 s 0)), E0;
        apply word_chars_masked).
  assert (W1 : word_chars (drawn hw1 s 1) = word_chars (drawn hw2 s 1))
    by (rewrite <- (word_chars_masked (drawn hw1 s 1)), E1;
        apply word_chars_masked).
  cbn [success_state log].
  rewrite !output_app, !stores_app, !output_success_events,
    !stores_success_events, W0, W1.
  split; reflexivity.
Qed.

Lemma top_bits_ignored_witness :
  exists s1 s2 : state,
    generate_password (hw_constant 0xC1E2A3FF) 5 init_state = Done (tt, s1)
    /\ generate_password (hw_constant 0x4162237F) 5 init_state = Done (tt, s2)
    /\ output (log s1) = output (log s2)
    /\ stores (log s1) = stores (log s2).
Proof.
  apply (top_bits_ignored (hw_constant 0xC1E2A3FF) (hw_constant 0x4162237F)
           5 init_state).
  - unfold enough_fuel. lia.
  - reflexivity.
  - reflexivity.
  - vm_compute. reflexivity.
  - vm_compute. reflexivity.
Defined.

(** X4: the password printed by a call that acquires the TRNG is, in order, the
    range-corrected low 7 bits of the four bytes of the first word drawn,
    least significant byte first, then those of the second word; it is
    printed between the fixed prefix and CR LF LF and followed by the two
    fixed texts. *)
Theorem password_of_words (hw : hal) (fuel : nat) (s : state) :
  (enough_fuel <= fuel)%nat ->
  hal_trng_init hw (init_calls s) = true ->
  let w0 := to_uint32 (hal_trng_generate hw (gen_calls s)) in
  let w1 := to_uint32 (hal_trng_generate hw (S (gen_calls s))) in
  let char w off := check_range (Z.land (Z.shiftr w off) 0x7F) in
  let chars := [ char w0 0; char w0 8; char w0 16; char w0 24;
                 char w1 0; char w1 8; char w1 16; char w1 24 ] in
  exists s' : state,
    generate_password hw fuel s = Done (tt, s')
    /\ output (log s')
       = output (log s)
         ++ [ bytes "One-Time Password: " ++ chars ++ [13; 10; 10];
              bytes "Press the Enter key to generate new password"
              ++ [13; 10];
              SCREEN_HEADER1 ].
Proof.
  intros Hf Hi w0 w1 char chars.
  exists (success_state hw s).
  split; [now apply generate_password_success|].
  cbn [success_state log]. rewrite output_app, output_success_events.
  f_equal. unfold password_texts, word_chars, bit_offsets, drawn.
  cbn [List.map app]. rewrite !candidate_byte_eq.
  rewrite Nat.add_0_r, Nat.add_1_r. reflexivity.
Qed.

Lemma password_of_words_witness :
  exists s' : state,
    generate_password (hw_constant 0x7F410020) 5 init_state = Done (tt, s')
    /\ output (log s')
       = [ bytes "One-Time Password: "
           ++ [65; 33; 65; 127; 65; 33; 65; 127] ++ [13; 10; 10];
           bytes "Press the Enter key to generate new password" ++ [13; 10];
           SCREEN_HEADER1 ].
Proof.
  apply (password_of_words (hw_constant 0x7F410020) 5 init_state).
  - unfold enough_fuel. lia.
  - reflexivity.
Defined.



(** X6: two calls in a row that both acquire the TRNG print two passwords, the
    first from the first two words drawn and the second from the next two:
    no word feeds two passwords. *)
Theorem consecutive_passwords (hw : hal) (fuel : nat) (s : state) :
  (enough_fuel <= fuel)%nat ->
  hal_trng_init hw (init_calls s) = true ->
  hal_trng_init hw (S (init_calls s)) = true ->
  exists s' : state,
    (generate_password hw fuel ;; generate_password hw fuel) s
    = Done (tt, s')
    /\ output (log s')
       = output (log s)
         ++ password_texts (word_chars (drawn hw s 0)
                            ++ word_chars (drawn hw s 1))
         ++ password_texts (word_chars (drawn hw s 2)
                            ++ word_chars (drawn hw s 3))
    /\ gen_calls s' = (gen_calls s + 4)%nat
    /\ trng_held s' = false.
Proof.
  intros Hf H0 H1.
  exists (success_state hw (success_state hw s)).
  split.
  { unfold bind. rewrite generate_password_success by assumption.
    now apply generate_password_success. }
  split.
  { cbn [success_state log]. rewrite !output_app, !output_success_events.
    unfold drawn. cbn [gen_calls].
    rewrite <- app_assoc.
    change (gen_calls (success_state hw s)) with (S (S (gen_calls s))).
    replace (S (S (gen_calls s)) + 0)%nat with (gen_calls s + 2)%nat by lia.
    replace (S (S (gen_calls s)) + 1)%nat with (gen_calls s + 3)%nat by lia.
    reflexivity. }
  split; [cbn [success_state gen_calls]; lia|reflexivity].
Qed.

Lemma consecutive_passwords_witness :
  exists s' : state,
    (generate_password (hw_constant 0x12345678) 5 ;;
     generate_password (hw_constant 0x12345678) 5) init_state
    = Done (tt, s')
    /\ output (log s')
       = output (log init_state)
         ++ password_texts
              (word_chars (drawn (hw_constant 0x12345678) init_state 0)
               ++ word_chars (drawn (hw_constant 0x12345678) init_state 1))
         ++ password_texts
              (word_chars (drawn (hw_constant 0x12345678) init_state 2)
               ++ word_chars (drawn (hw_constant 0x12345678) init_state 3))
    /\ gen_calls s' = (gen_calls init_state + 4)%nat
    /\ trng_held s' = false.
Proof.
  apply (consecutive_passwords (hw_constant 0x12345678) 5 init_state).
  - unfold enough_fuel. lia.
  - reflexivity.
  - reflexivity.
Defined.

(* ===================================================================== *)
(** ** Accounting over the loop of [main] *)
(* ===================================================================== *)

(** An iteration whose read is not a received carriage return only records
    the read. *)
Lemma loop_body_idle (hw : hal) (fuel : nat) (s : state) :
  is_trigger (hal_uart_getc hw (uart_calls s)) = false ->
  loop_body hw fuel s
  = Done (tt, received_state s (hal_uart_getc hw (uart_calls s))).
Proof.
  intros H. destruct (hal_uart_getc hw (uart_calls s)) as [b|] eqn:Hr.
  - apply loop_body_other; [assumption|].
    cbn [is_trigger] in H. now apply Z.eqb_neq.
  - now apply loop_body_no_input.
Qed.

(** X7: as long as no carriage return is received, the loop prints nothing and
    never calls the TRNG, whatever else is received (failed reads and other
    bytes alike) and whatever [uart_read_value] held before: its only
    events are the reads, one per iteration. *)
Theorem idle_loop_silent (hw : hal) (n fuel : nat) (s : state) :
  (forall k : nat, (k < n)%nat ->
     is_trigger (hal_uart_getc hw (uart_calls s + k)) = false) ->
  exists s' : state,
    main_loop hw n fuel s = Done (tt, s')
    /\ log s'
       = log s ++ List.map (fun k => EvUartGetc
                                       (hal_uart_getc hw (uart_calls s + k)))
                           (List.seq 0 n)
    /\ output (log s') = output (log s)
    /\ uart_calls s' = (uart_calls s + n)%nat
    /\ init_calls s' = init_calls s
    /\ gen_calls s' = gen_calls s
    /\ trng_held s' = trng_held s.
Proof.
  revert s. induction n as [|n IH]; intros s Hidle.
  - exists s. cbn [main_loop List.seq List.map]. unfold ret.
    rewrite app_nil_r. repeat split; try reflexivity. lia.
  - pose proof (Hidle 0%nat ltac:(lia)) as H0. rewrite Nat.add_0_r in H0.
    pose proof (loop_body_idle hw fuel s H0) as L.
    set (s1 := received_state s (hal_uart_getc hw (uart_calls s))) in *.
    destruct (IH s1) as (s' & R & Hlog & Hout & Hu & Hi & Hg & Hh).
    { intros k Hk. replace (uart_calls s1 + k)%nat
        with (uart_calls s + S k)%nat by (subst s1; cbn; lia).
      apply Hidle. lia. }
    exists s'. split; [now rewrite (main_loop_unfold _ _ _ _ _ L)|].
    split.
    { rewrite Hlog. subst s1. cbn [received_state log uart_calls].
      rewrite <- app_assoc. f_equal. cbn [List.seq List.map app].
      rewrite Nat.add_0_r. f_equal.
      rewrite <- List.seq_shift, List.map_map.
      apply List.map_ext. intros k. do 2 f_equal. lia. }
    split.
    { rewrite Hout. subst s1. cbn [received_state log].
      rewrite output_app. cbn. now rewrite app_nil_r. }
    subst s1. cbn [received_state uart_calls init_calls gen_calls trng_held]
      in *.
    repeat split; try assumption. lia.
Qed.

Lemma idle_loop_silent_witness :
  exists s' : state,
    main_loop hw_busy_once 2 0 after_busy_trigger = Done (tt, s')
    /\ log s'
       = log after_busy_trigger
         ++ List.map
              (fun k => EvUartGetc
                 (hal_uart_getc hw_busy_once
                    (uart_calls after_busy_trigger + k)))
              (List.seq 0 2)
    /\ output (log s') = output (log after_busy_trigger)
    /\ uart_calls s' = (uart_calls after_busy_trigger + 2)%nat
    /\ init_calls s' = init_calls after_busy_trigger
    /\ gen_calls s' = gen_calls after_busy_trigger
    /\ trng_held s' = trng_held after_busy_trigger.
Proof.
  apply (idle_loop_silent hw_busy_once 2 0 after_busy_trigger).
  intros k Hk.
  destruct k as [|[|k]]; [reflexivity|reflexivity|lia].
Defined.

(** The events of one iteration, counted. *)
Lemma loop_body_accounting (hw : hal) (fuel : nat) (s : state) :
  (enough_fuel <= fuel)%nat ->
  exists (evs : list event) (s' : state),
    loop_body hw fuel s = Done (tt, s')
    /\ log s' = log s ++ evs
    /\ uart_calls s' = S (uart_calls s)
    /\ count is_getc evs = 1%nat
    /\ init_calls s' = (init_calls s + count is_init evs)%nat
    /\ (count is_init evs <= 1)%nat
    /\ count is_acquire evs = count is_free evs
    /\ gen_calls s' = (gen_calls s + 2 * count is_acquire evs)%nat
    /\ length (output evs) = (3 * count is_acquire evs)%nat
    /\ length (stores evs) = (9 * count is_acquire evs)%nat
    /\ count is_init evs
       = (if is_trigger (hal_uart_getc hw (uart_calls s)) then 1 else 0)%nat.
Proof.
  intros Hf.
  destruct (is_trigger (hal_uart_getc hw (uart_calls s))) eqn:T.
  - destruct (hal_uart_getc hw (uart_calls s)) as [b|] eqn:Hr;
      [|discriminate].
    cbn [is_trigger] in T. apply Z.eqb_eq in T.
    rewrite (loop_body_trigger _ _ _ _ Hr T).
    rewrite generate_password_returns by assumption.
    cbn [received_state init_calls].
    destruct (hal_trng_init hw (init_calls s)).
    + eexists (EvUartGetc (Some b) :: success_events _ _), _.
      split; [reflexivity|].
      split; [cbn [success_state received_state log];
              now rewrite <- app_assoc|].
      cbn [success_state received_state uart_calls init_calls gen_calls].
      repeat split; try reflexivity; cbn; lia.
    + exists [EvUartGetc (Some b); EvTrngInit false], (failure_state
        (received_state s (Some b))).
      split; [reflexivity|].
      split; [cbn [failure_state received_state log];
              now rewrite <- app_assoc|].
      cbn [failure_state received_state uart_calls init_calls gen_calls].
      repeat split; try reflexivity; cbn; lia.
  - rewrite (loop_body_idle _ _ _ T).
    exists [EvUartGetc (hal_uart_getc hw (uart_calls s))],
           (received_state s (hal_uart_getc hw (uart_calls s))).
    cbn [received_state log uart_calls init_calls gen_calls].
    repeat split; try reflexivity; cbn; lia.
Qed.

(** X8: over any number [n] of iterations, from any state: the loop returns
    without undefined behaviour; it reads the UART exactly [n] times and
    calls [cyhal_trng_init] at most [n] times; every successful
    [cyhal_trng_init] is matched by one [cyhal_trng_free], two words drawn,
    nine stores and three printed texts, and nothing else is drawn, stored
    or printed. *)
Theorem main_loop_accounting (hw : hal) (n fuel : nat) (s : state) :
  (enough_fuel <= fuel)%nat ->
  exists (evs : list event) (s' : state),
    main_loop hw n fuel s = Done (tt, s')
    /\ log s' = log s ++ evs
    /\ uart_calls s' = (uart_calls s + n)%nat
    /\ count is_getc evs = n
    /\ init_calls s' = (init_calls s + count is_init evs)%nat
    /\ (count is_init evs <= n)%nat
    /\ count is_acquire evs = count is_free evs
    /\ gen_calls s' = (gen_calls s + 2 * count is_acquire evs)%nat
    /\ length (output evs) = (3 * count is_acquire evs)%nat
    /\ length (stores evs) = (9 * count is_acquire evs)%nat.
Proof.
  intros Hf. revert s. induction n as [|n IH]; intros s.
  - exists [], s. cbn [main_loop]. unfold ret. rewrite app_nil_r.
    repeat split; try reflexivity; cbn; lia.
  - destruct (loop_body_accounting hw fuel s Hf)
      as (e1 & s1 & L & Hl1 & Hu1 & Hc1 & Hi1 & Hn1 & Hb1 & Hg1 & Ho1 & Hs1
          & _).
    destruct (IH s1)
      as (e2 & s2 & R & Hl2 & Hu2 & Hc2 & Hi2 & Hn2 & Hb2 & Hg2 & Ho2 & Hs2).
    exists (e1 ++ e2), s2.
    split; [now rewrite (main_loop_unfold _ _ _ _ _ L)|].
    split; [now rewrite Hl2, Hl1, <- app_assoc|].
    rewrite !count_app, output_app, stores_app, !length_app.
    repeat split; lia.
Qed.

Lemma main_loop_accounting_witness :
  exists (evs : list event) (s' : state),
    main_loop hw_busy_once 4 5 init_state = Done (tt, s')
    /\ log s' = log init_state ++ evs
    /\ uart_calls s' = (uart_calls init_state + 4)%nat
    /\ count is_getc evs = 4%nat
    /\ init_calls s' = (init_calls init_state + count is_init evs)%nat
    /\ (count is_init evs <= 4)%nat
    /\ count is_acquire evs = count is_free evs
    /\ gen_calls s' = (gen_calls init_state + 2 * count is_acquire evs)%nat
    /\ length (output evs) = (3 * count is_acquire evs)%nat
    /\ length (stores evs) = (9 * count is_acquire evs)%nat.
Proof.
  apply (main_loop_accounting hw_busy_once 4 5 init_state).
  unfold enough_fuel. lia.
Defined.

(* ===================================================================== *)
(** ** [generate_password] of the earlier revision *)
(* ===================================================================== *)

Lemma earlier_store_ok (password : list (option Z)) (index value : Z)
      (s : state) :
  0 <= index < 9 ->
  EarlierProgram.store password index value s
  = Done (<[Z.to_nat index := Some value]> password,
          append_log s [EvStore index value]).
Proof.
  intros H. unfold EarlierProgram.store, password_size, PASSWORD_LENGTH.
  destruct (Z.leb_spec 0 index); [|lia].
  destruct (Z.ltb_spec index (8 + 1)); [|lia].
  reflexivity.
Qed.

(** The loop of the earlier revision, run from [index] for the [n] turns
    that remain. *)
Lemma earlier_for_index_run (hw : hal) (n : nat) :
  forall (fuel : nat) (index : Z) (password : list (option Z)) (s : state),
    (n < fuel)%nat -> 0 <= index -> index + Z.of_nat n = 8 ->
    trng_held s = true ->
    EarlierProgram.for_index hw fuel index password s
    = Done ((8, EarlierProgram.write_chars index
                  (EarlierProgram.chars_from hw (gen_calls s) n) password),
            State (uart_calls s) (init_calls s) (gen_calls s + n) true
              (uart_read_value s)
              (log s ++ EarlierProgram.turn_events hw (gen_calls s) index n)).
Proof.
  induction n as [|n IH]; intros fuel index password s Hf H0 Hn Hh;
    (destruct fuel as [|fuel]; [lia|]); cbn [EarlierProgram.for_index].
  - replace index with 8 by lia.
    destruct s as [u i g h v l]. cbn in Hh. subst h.
    cbn. unfold ret. now rewrite Nat.add_0_r, app_nil_r.
  - rewrite to_uint32_small by lia. unfold PASSWORD_LENGTH.
    destruct (Z.ltb_spec index 8); [|lia].
    unfold bind at 1. unfold cyhal_trng_generate. rewrite Hh.
    unfold bind at 1. rewrite earlier_store_ok by lia.
    rewrite to_int8_small by lia.
    rewrite IH by (cbn; (assumption || lia)).
    cbn [append_log gen_calls log uart_calls init_calls uart_read_value
         trng_held EarlierProgram.chars_from EarlierProgram.turn_events
         EarlierProgram.write_chars].
    rewrite <- !app_assoc.
    replace (S (gen_calls s) + n)%nat with (gen_calls s + S n)%nat by lia.
    reflexivity.
Qed.

Lemma earlier_c_string_terminated (chars : list Z) (rest : list (option Z)) :
  Forall (fun c => c <> 0) chars ->
  EarlierProgram.c_string (List.map Some chars ++ Some 0 :: rest)
  = Some chars.
Proof.
  induction 1 as [|c chars Hc _ IH]; [reflexivity|].
  cbn [EarlierProgram.c_string app List.map].
  destruct (Z.eqb_spec c 0); [contradiction|]. now rewrite IH.
Qed.

Lemma earlier_chars_visible (hw : hal) (n g : nat) :
  Forall visible (EarlierProgram.chars_from hw g n).
Proof.
  revert g. induction n as [|n IH]; intros g; constructor; [|apply IH].
  pose proof (land_mask_range (to_uint32 (hal_trng_generate hw g))) as R.
  change ASCII_7BIT_MASK with Earlier.MAX_TRNG_VAL in R.
  set (v := Z.land _ Earlier.MAX_TRNG_VAL) in *.
  unfold visible, Earlier.normalize, Earlier.ASCII_ALPHANUMERIC_LOWER_LIMIT,
    Earlier.ASCII_ALPHANUMERIC_UPPER_LIMIT.
  destruct (Z.ltb_spec v 33).
  - rewrite to_uint32_small, to_uint8_small; lia.
  - destruct (Z.leb_spec 127 v).
    + rewrite to_uint32_small, to_uint8_small; lia.
    + rewrite to_uint8_small; lia.
Qed.

Lemma earlier_chars_length (hw : hal) (n g : nat) :
  length (EarlierProgram.chars_from hw g n) = n.
Proof.
  revert g. induction n as [|n IH]; intros g; [reflexivity|].
  cbn [EarlierProgram.chars_from length]. now rewrite IH.
Qed.

Lemma earlier_turn_events_stores (hw : hal) (n g : nat) (index : Z) :
  stores (EarlierProgram.turn_events hw g index n)
  = indexed index (EarlierProgram.chars_from hw g n).
Proof.
  revert g index. induction n as [|n IH]; intros g index; [reflexivity|].
  cbn [EarlierProgram.turn_events EarlierProgram.chars_from stores indexed].
  now rewrite IH.
Qed.

Lemma earlier_turn_events_counts (hw : hal) (n g : nat) (index : Z) :
  output (EarlierProgram.turn_events hw g index n) = []
  /\ count is_free (EarlierProgram.turn_events hw g index n) = 0%nat
  /\ count is_acquire (EarlierProgram.turn_events hw g index n) = 0%nat.
Proof.
  revert g index. induction n as [|n IH]; intros g index;
    [repeat split; reflexivity|].
  cbn [EarlierProgram.turn_events output]. unfold count in *.
  cbn [List.filter is_free is_acquire]. apply IH.
Qed.

(** The earlier [generate_password] when [cyhal_trng_init] succeeds. *)
Lemma earlier_generate_password_success (hw : hal) (fuel : nat) (s : state) :
  (EarlierProgram.enough_fuel <= fuel)%nat ->
  hal_trng_init hw (init_calls s) = true ->
  EarlierProgram.generate_password hw fuel s
  = Done (tt, earlier_success_state hw s).
Proof.
  unfold EarlierProgram.enough_fuel. intros Hf Hi.
  set (chars := EarlierProgram.chars_from hw (gen_calls s) 8).
  assert (NZ : Forall (fun c => c <> 0) chars).
  { eapply Forall_impl; [apply earlier_chars_visible|].
    unfold visible. cbn. intros c H. lia. }
  unfold EarlierProgram.generate_password. unfold bind at 1.
  unfold cyhal_trng_init. rewrite Hi. cbn iota. unfold bind at 1.
  rewrite (earlier_for_index_run hw 8) by (reflexivity || lia).
  unfold bind at 1. rewrite earlier_store_ok by lia.
  cbn [gen_calls log uart_calls init_calls uart_read_value].
  replace (<[Z.to_nat 8:=Some 0]>
             (EarlierProgram.write_chars 0
                (EarlierProgram.chars_from hw (gen_calls s) 8)
                EarlierProgram.password_uninit))
    with (List.map Some chars ++ [Some 0]) by reflexivity.
  rewrite earlier_c_string_terminated by exact NZ.
  unfold bind, printf, emit, cyhal_trng_free, append_log,
    earlier_success_state, earlier_success_events.
  cbn [trng_held log uart_calls init_calls gen_calls uart_read_value
       password_texts List.map].
  repeat rewrite <- app_assoc. reflexivity.
Qed.

Lemma earlier_output_success_events (hw : hal) (s : state) :
  output (earlier_success_events hw s)
  = password_texts (EarlierProgram.chars_from hw (gen_calls s) 8).
Proof.
  unfold earlier_success_events.
  destruct (earlier_turn_events_counts hw 8 (gen_calls s) 0) as (O & _).
  rewrite !output_app, O. reflexivity.
Qed.

(** X10: the earlier [generate_password], when it acquires the TRNG: it returns
    without reading an element of [password] it has not stored; it draws
    eight words, one per character; the eight characters, stored at 0 to 7
    before the terminator at 8, are all visible; it prints them and frees
    the TRNG once. *)
Theorem earlier_generate_password_visible (hw : hal) (fuel : nat)
        (s : state) :
  (EarlierProgram.enough_fuel <= fuel)%nat ->
  hal_trng_init hw (init_calls s) = true ->
  exists (evs : list event) (s' : state),
    let chars := EarlierProgram.chars_from hw (gen_calls s) 8 in
    EarlierProgram.generate_password hw fuel s = Done (tt, s')
    /\ log s' = log s ++ evs
    /\ length chars = 8%nat
    /\ Forall visible chars
    /\ stores evs = indexed 0 chars ++ [(8, 0)]
    /\ output evs = password_texts chars
    /\ gen_calls s' = (gen_calls s + 8)%nat
    /\ count is_acquire evs = 1%nat
    /\ count is_free evs = 1%nat
    /\ trng_held s' = false.
Proof.
  intros Hf Hi.
  exists (earlier_success_events hw s), (earlier_success_state hw s).
  destruct (earlier_turn_events_counts hw 8 (gen_calls s) 0) as (O & F & A).
  split; [now apply earlier_generate_password_success|].
  split; [reflexivity|].
  split; [apply earlier_chars_length|].
  split; [apply earlier_chars_visible|].
  split.
  { unfold earlier_success_events.
    rewrite !stores_app, earlier_turn_events_stores. reflexivity. }
  split; [apply earlier_output_success_events|].
  split; [reflexivity|].
  unfold earlier_success_events.
  rewrite !count_app, A, F. split; [reflexivity|]. split; reflexivity.
Qed.

Lemma earlier_generate_password_visible_witness :
  exists (evs : list event) (s' : state),
    let chars := EarlierProgram.chars_from (hw_constant 0xFFFFFFFF)
                   (gen_calls init_state) 8 in
    EarlierProgram.generate_password (hw_constant 0xFFFFFFFF) 9 init_state
    = Done (tt, s')
    /\ log s' = log init_state ++ evs
    /\ length chars = 8%nat
    /\ Forall visible chars
    /\ stores evs = indexed 0 chars ++ [(8, 0)]
    /\ output evs = password_texts chars
    /\ gen_calls s' = (gen_calls init_state + 8)%nat
    /\ count is_acquire evs = 1%nat
    /\ count is_free evs = 1%nat
    /\ trng_held s' = false.
Proof.
  apply (earlier_generate_password_visible (hw_constant 0xFFFFFFFF) 9
           init_state).
  - unfold EarlierProgram.enough_fuel. lia.
  - reflexivity.
Defined.

(* ===================================================================== *)
(** ** Carriage returns and acquisitions *)
(* ===================================================================== *)

(** X9: over any number of iterations [cyhal_trng_init] is called once for each
    carriage return received and never otherwise, so at most that many
    passwords are printed. *)
Theorem init_per_trigger (hw : hal) (n fuel : nat) (s : state) :
  (enough_fuel <= fuel)%nat ->
  exists (evs : list event) (s' : state),
    main_loop hw n fuel s = Done (tt, s')
    /\ log s' = log s ++ evs
    /\ uart_calls s' = (uart_calls s + n)%nat
    /\ count is_init evs = triggers hw (uart_calls s) n
    /\ (count is_acquire evs <= triggers hw (uart_calls s) n)%nat
    /\ (length (output evs) <= 3 * triggers hw (uart_calls s) n)%nat.
Proof.
  intros Hf. revert s. induction n as [|n IH]; intros s.
  - exists [], s. cbn [main_loop triggers]. unfold ret. rewrite app_nil_r.
    repeat split; try reflexivity; cbn; lia.
  - destruct (loop_body_accounting hw fuel s Hf)
      as (e1 & s1 & L & Hl1 & Hu1 & _ & Hi1 & Hn1 & Hb1 & _ & Ho1 & _ & Ht1).
    destruct (IH s1) as (e2 & s2 & R & Hl2 & Hu2 & Hc2 & Ha2 & Ho2).
    rewrite Hu1 in *.
    assert (A1 : (count is_acquire e1 <= count is_init e1)%nat).
    { unfold count. clear. induction e1 as [|e l IHl]; [cbn; lia|].
      destruct e as [| [|] | | | |]; cbn in *; lia. }
    exists (e1 ++ e2), s2.
    split; [now rewrite (main_loop_unfold _ _ _ _ _ L)|].
    split; [now rewrite Hl2, Hl1, <- app_assoc|].
    rewrite !count_app, output_app, length_app. cbn [triggers].
    rewrite <- Ht1. repeat split; lia.
Qed.

Lemma init_per_trigger_witness :
  exists (evs : list event) (s' : state),
    main_loop hw_busy_once 4 5 init_state = Done (tt, s')
    /\ log s' = log init_state ++ evs
    /\ uart_calls s' = (uart_calls init_state + 4)%nat
    /\ count is_init evs = triggers hw_busy_once (uart_calls init_state) 4
    /\ (count is_acquire evs
        <= triggers hw_busy_once (uart_calls init_state) 4)%nat
    /\ (length (output evs)
        <= 3 * triggers hw_busy_once (uart_calls init_state) 4)%nat.
Proof.
  apply (init_per_trigger hw_busy_once 4 5 init_state).
  unfold enough_fuel. lia.
Defined.

(* ===================================================================== *)
(** ** The two revisions compared *)
(* ===================================================================== *)

Lemma check_range_agrees_below_127 (v : Z) :
  0 <= v <= 126 -> check_range v = to_uint8 (Earlier.normalize v).
Proof.
  intros Hv. unfold Earlier.normalize,
    Earlier.ASCII_ALPHANUMERIC_LOWER_LIMIT,
    Earlier.ASCII_ALPHANUMERIC_UPPER_LIMIT.
  destruct (Z.ltb_spec v 33).
  - rewrite check_range_low, to_uint32_small, to_uint8_small; lia.
  - destruct (Z.leb_spec 127 v); [lia|].
    rewrite check_range_high, to_uint8_small; lia.
Qed.

Lemma earlier_chars_from_candidates (hw : hal) (n g : nat) :
  EarlierProgram.chars_from hw g n
  = List.map (fun v => to_uint8 (Earlier.normalize v))
             (EarlierProgram.candidates_from hw g n).
Proof.
  revert g. induction n as [|n IH]; intros g; [reflexivity|].
  cbn [EarlierProgram.chars_from EarlierProgram.candidates_from List.map].
  now rewrite IH.
Qed.

(** X11: fed the same eight candidate bytes, none of them 127, the two revisions
    print the same password: this revision takes them from two words, the
    earlier one from eight. *)
Theorem revisions_print_same_password (hw hwE : hal) (fuel fuelE : nat)
        (s sE : state) :
  (enough_fuel <= fuel)%nat ->
  (EarlierProgram.enough_fuel <= fuelE)%nat ->
  hal_trng_init hw (init_calls s) = true ->
  hal_trng_init hwE (init_calls sE) = true ->
  candidates hw s = EarlierProgram.candidates_from hwE (gen_calls sE) 8 ->
  Forall (fun v => v <> 127) (candidates hw s) ->
  exists (chars : list Z) (s' sE' : state),
    generate_password hw fuel s = Done (tt, s')
    /\ EarlierProgram.generate_password hwE fuelE sE = Done (tt, sE')
    /\ output (log s') = output (log s) ++ password_texts chars
    /\ output (log sE') = output (log sE) ++ password_texts chars
    /\ gen_calls s' = (gen_calls s + 2)%nat
    /\ gen_calls sE' = (gen_calls sE + 8)%nat.
Proof.
  intros Hf HfE Hi HiE Hc Hn.
  exists (word_chars (drawn hw s 0) ++ word_chars (drawn hw s 1)),
         (success_state hw s), (earlier_success_state hwE sE).
  split; [now apply generate_password_success|].
  split; [now apply earlier_generate_password_success|].
  split; [cbn [success_state log];
          now rewrite output_app, output_success_events|].
  split.
  { cbn [earlier_success_state log].
    rewrite output_app, earlier_output_success_events. do 2 f_equal.
    rewrite earlier_chars_from_candidates, <- Hc.
    unfold candidates in *. unfold word_chars.
    rewrite List.map_app, !List.map_map.
    apply Forall_app in Hn. destruct Hn as [N0 N1].
    rewrite Forall_map in N0, N1. rewrite Forall_forall in N0, N1.
    f_equal; apply List.map_ext_in; intros off Hin;
      apply list_elem_of_In in Hin; symmetry;
      apply check_range_agrees_below_127;
      pose proof (candidate_byte_range (drawn hw s 0) off);
      pose proof (candidate_byte_range (drawn hw s 1) off);
      pose proof (N0 off Hin); pose proof (N1 off Hin); cbn in *; lia. }
  split; [cbn [success_state gen_calls]; lia|reflexivity].
Qed.

Lemma revisions_print_same_password_witness :
  exists (chars : list Z) (s' sE' : state),
    generate_password (hw_constant 0x44434241) 5 init_state = Done (tt, s')
    /\ EarlierProgram.generate_password hw_letters 9 init_state
       = Done (tt, sE')
    /\ output (log s') = output (log init_state) ++ password_texts chars
    /\ output (log sE') = output (log init_state) ++ password_texts chars
    /\ gen_calls s' = (gen_calls init_state + 2)%nat
    /\ gen_calls sE' = (gen_calls init_state + 8)%nat.
Proof.
  apply (revisions_print_same_password (hw_constant 0x44434241) hw_letters
           5 9 init_state init_state).
  - unfold enough_fuel. lia.
  - unfold EarlierProgram.enough_fuel. lia.
  - reflexivity.
  - reflexivity.
  - vm_compute. reflexivity.
  - vm_compute. repeat constructor; discriminate.
Defined.
